(** * ConfigHTTP: the HTTP configuration source of apprise

    A shallow embedding of [apprise/config/ConfigHTTP.py]: the module-level
    MIME patterns, the constructor, [url], [read] and [parse_url].

    Python objects are rendered as follows.
    - [str] is [string] (a header value arrives latin-1 decoded, so one
      character is one 8-bit [ascii]); [bytes] is [list Byte.byte].
    - [dict] with string keys is [gmap string _]; [d.update(e)] is [e ∪ d].
    - an attribute that may be [None] is an [option].
    - [self] is a record threaded through a state monad together with the
      trace of effects (log calls, throttle, the request, body reads and
      [close] calls); a raised exception is the [Raise] result.
    - members inherited from the base classes that are not defined in this
      module ([quote], [urlencode], [ConfigBase.parse_url], the values of
      the [ConfigFormat] enumeration) are parameters. *)

From Stdlib Require Import ZArith String Ascii List DecimalString.
From stdpp Require Import base option gmap strings list.

Open Scope Z_scope.

(** ** Python values *)

(** The code runs on Python 2 and Python 3 (it imports [six]); the two
    disagree on ordering a [str] against an [int]. *)
Inductive pyver := Py2 | Py3.

(** A value found in a response header mapping: [requests] delivers [str],
    a test double may hold an [int]. *)
Inductive pyval :=
| VStr (s : string)
| VInt (n : Z).

Inductive exn :=
| RequestException (detail : string)
| KeyError (key : string)
| TypeError (detail : string).

(** Truth value of an object in a condition. *)
Definition truthy (v : pyval) : bool :=
  match v with
  | VStr s => negb (String.eqb s "")
  | VInt n => negb (n =? 0)
  end.

Definition truthy_opt (o : option string) : bool :=
  match o with
  | Some s => negb (String.eqb s "")
  | None => false
  end.

(** [v > n] for an [int] [n].  Python 3 refuses to order [str] and [int];
    Python 2 orders every number below every string. *)
Definition py_gt (pv : pyver) (v : pyval) (n : Z) : exn + bool :=
  match v with
  | VInt m => inr (n <? m)
  | VStr _ =>
      match pv with
      | Py2 => inr true
      | Py3 => inl (TypeError "'>' not supported between instances of 'str' and 'int'")
      end
  end.

(** [str(n)], also what ['{}'.format(n)] and ['%d' % n] print. *)
Definition pystr (n : Z) : string := NilZero.string_of_int (Z.to_int n).

(** ** Characters and case *)

Definition lower (c : ascii) : ascii :=
  let n := N_of_ascii c in
  if ((65 <=? n) && (n <=? 90))%N then ascii_of_N (n + 32) else c.

Fixpoint lower_string (s : string) : string :=
  match s with
  | EmptyString => EmptyString
  | String c s' => String (lower c) (lower_string s')
  end.

(** ** Regular expressions, as far as the two patterns need them *)

Inductive regex :=
| Lit (s : string)
| Cat (r1 r2 : regex)
| Alt (r1 r2 : regex)
| Opt (r : regex).

Record pattern := re_compile { re_expr : regex; re_I : bool }.

Definition chr_eq (ignorecase : bool) (a b : ascii) : bool :=
  if ignorecase then Ascii.eqb (lower a) (lower b) else Ascii.eqb a b.

(** Consume the literal [p] at the head of [s]; the rest of [s] on success. *)
Fixpoint lit_match (ic : bool) (p s : string) : option string :=
  match p with
  | EmptyString => Some s
  | String a p' =>
      match s with
      | EmptyString => None
      | String b s' => if chr_eq ic a b then lit_match ic p' s' else None
      end
  end.

(** Every way [r] can match at the head of [s], in backtracking order, each
    given by what is left of [s]. *)
Fixpoint rests (ic : bool) (r : regex) (s : string) : list string :=
  match r with
  | Lit p => match lit_match ic p s with Some t => [t] | None => [] end
  | Cat r1 r2 => flat_map (rests ic r2) (rests ic r1 s)
  | Alt r1 r2 => rests ic r1 s ++ rests ic r2 s
  | Opt r1 => rests ic r1 s ++ [s]
  end.

(** [p.match(s) is not None]: [match] anchors at the start of [s] only. *)
Definition re_match (p : pattern) (s : string) : bool :=
  match rests (re_I p) (re_expr p) s with
  | [] => false
  | _ :: _ => true
  end.

(** [(text|application)/(x-)?yaml], [re.I] *)
Definition MIME_IS_YAML : pattern :=
  re_compile
    (Cat (Alt (Lit "text") (Lit "application"))
       (Cat (Lit "/") (Cat (Opt (Lit "x-")) (Lit "yaml"))))
    true.

(** [text/(plain|html)], [re.I] *)
Definition MIME_IS_TEXT : pattern :=
  re_compile (Cat (Lit "text/") (Alt (Lit "plain") (Lit "html"))) true.

(** The finitely many literals a star-free expression stands for. *)
Fixpoint expand (r : regex) : list string :=
  match r with
  | Lit p => [p]
  | Cat r1 r2 => flat_map (fun p => map (String.append p) (expand r2)) (expand r1)
  | Alt r1 r2 => expand r1 ++ expand r2
  | Opt r1 => expand r1 ++ [EmptyString]
  end.

(** ** The configuration object *)

(** Modelled from the spec: the enumeration [ConfigFormat] of
    [apprise.common], which this module imports; the specification names
    its members YAML and TEXT. *)
Inductive ConfigFormat := TEXT | YAML.

(** Modelled from the spec: the attributes that the initialiser of the
    base class ([ConfigBase], and [URLBase] above it, both outside this
    module) leaves on the object, as the Endpoint Descriptor lists them,
    together with the inherited attributes [read] uses by name. *)
Record ConfigBase := {
  secure : bool;
  host : string;
  port : option Z;
  user : option string;
  password : option string;
  verify_certificate : bool;
  encoding : string;
  config_format : option ConfigFormat;
  default_config_format : ConfigFormat;
  app_id : string;
  max_buffer_size : Z;
}.

Record ConfigHTTP := {
  base :> ConfigBase;
  schema : string;
  fullpath : string;
  headers : gmap string string;
}.

Definition service_name : string := "HTTP".
Definition protocol : string := "http".
Definition secure_protocol : string := "https".

(** [connection_timeout_sec = 5.0] *)
Definition connection_timeout_sec : Z := 5.

Definition max_error_buffer_size : Z := 2048.

(** [requests.codes.ok] *)
Definition codes_ok : Z := 200.

(** Inherited helpers that live outside this module. *)
Class URLBase := {
  (** [self.quote(content, safe='')] *)
  quote : string → string;
  (** [self.urlencode(query)] *)
  urlencode : gmap string string → string;
  (** the string held by a [ConfigFormat] member *)
  format_value : ConfigFormat → string;
}.

(** [ConfigHTTP.__init__(self, headers=None, **kwargs)]; [b] is the object
    after the base initialiser ran on [kwargs], [kw_fullpath] is
    [kwargs.get('fullpath')]. *)
Definition init (b : ConfigBase) (hdrs : option (gmap string string))
    (kw_fullpath : option pyval) : ConfigHTTP :=
  let schema := if secure b then "https" else "http" in
  let fullpath :=
    match kw_fullpath with
    | Some (VStr s) => s
    | _ => "/"
    end in
  let headers :=
    match hdrs with
    | Some h => if decide (h = ∅) then ∅ else h ∪ ∅
    | None => ∅
    end in
  {| base := b; schema := schema; fullpath := fullpath; headers := headers |}.

Definition default_port (self : ConfigHTTP) : Z :=
  if secure self then 443 else 80.

Section url.
Context `{URLBase}.

(** The [args] dictionary of [url]. *)
Definition url_args (self : ConfigHTTP) : gmap string string :=
  let args : gmap string string := {[ "encoding" := encoding self ]} in
  let args :=
    match config_format self with
    | Some f => <["format" := format_value f]> args
    | None => args
    end in
  kmap (String "+") (headers self) ∪ args.

Definition url_auth (self : ConfigHTTP) : string :=
  if truthy_opt (user self) && truthy_opt (password self) then
    quote (default "" (user self)) +:+ ":"
      +:+ quote (default "" (password self)) +:+ "@"
  else if truthy_opt (user self) then
    quote (default "" (user self)) +:+ "@"
  else "".

(** The [port=] argument of the final [format]. *)
Definition url_port (self : ConfigHTTP) : string :=
  match port self with
  | None => ""
  | Some p => if p =? default_port self then "" else ":" +:+ pystr p
  end.

(** [ConfigHTTP.url(self)] *)
Definition url (self : ConfigHTTP) : string :=
  (if secure self then secure_protocol else protocol)
    +:+ "://" +:+ url_auth self +:+ host self +:+ url_port self
    +:+ "/?" +:+ urlencode (url_args self).
End url.

(** ** Effects of [read] *)

Inductive level := Debug | Warning | Error.

(** The logging calls of [read], each with the values it formats. *)
Inductive log_record :=
| LogPostURL (url : string) (cert_verify : bool)
| LogHTTPError (status : Z)
| LogResponseDetails (echo : list Byte.byte)
| LogExceedsBuffer (kb : Z)
| LogConnectionError (hostname : string)
| LogSocketException (detail : string).

(** The keyword arguments of [requests.post]. *)
Record request := {
  rq_url : string;
  rq_headers : gmap string string;
  rq_auth : option (string * option string);
  rq_verify : bool;
  rq_timeout : Z;
  rq_stream : bool;
}.

Inductive event :=
| EvLog (lvl : level) (rec : log_record)
| EvThrottle
| EvPost (rq : request)
| EvContent
| EvClose.

(** What the server does with the body when [r.content] pulls it. *)
Inductive body :=
| BodyOk (b : list Byte.byte)
| BodyFails (detail : string).

(** A [requests.Response] in streaming mode: status line and headers are
    in, the body is still on the wire. *)
Record Response := {
  status_code : Z;
  r_headers : list (string * pyval);
  r_body : body;
}.

(** The network's answer to the request: a [RequestException] raised by
    [requests.post] (every transport error of [requests] is one), or a
    response. *)
Inductive world :=
| PostFails (detail : string)
| PostOk (r : Response).

Record St := {
  st_self : ConfigHTTP;
  st_trace : list event;
}.

Inductive res (A : Type) :=
| Val (a : A)
| Raise (e : exn).
Arguments Val {A} a.
Arguments Raise {A} e.

Definition M (A : Type) : Type := St → res A * St.

#[global] Instance M_ret : MRet M := λ A a st, (Val a, st).

#[global] Instance M_bind : MBind M := λ A B f m st,
  match m st with
  | (Val a, st') => f a st'
  | (Raise e, st') => (Raise e, st')
  end.

Definition raise {A} (e : exn) : M A := λ st, (Raise e, st).

Definition lift {A} (x : exn + A) : M A :=
  match x with
  | inl e => raise e
  | inr a => mret a
  end.

Definition get_self : M ConfigHTTP := λ st, (Val (st_self st), st).

Definition emit (ev : event) : M unit := λ st,
  (Val (), {| st_self := st_self st; st_trace := st_trace st ++ [ev] |}).

(** [self.default_config_format = f] *)
Definition set_default_config_format (f : ConfigFormat) : M unit := λ st,
  let self := st_self st in
  let b := base self in
  let b' := {| secure := secure b; host := host b; port := port b;
               user := user b; password := password b;
               verify_certificate := verify_certificate b;
               encoding := encoding b; config_format := config_format b;
               default_config_format := f;
               app_id := app_id b; max_buffer_size := max_buffer_size b |} in
  (Val (), {| st_self := {| base := b'; schema := schema self;
                            fullpath := fullpath self;
                            headers := headers self |};
              st_trace := st_trace st |}).

(** [try: body  except requests.RequestException as e: handler(e)] *)
Definition try_except {A} (body : M A) (handler : string → M A) : M A := λ st,
  match body st with
  | (Raise (RequestException d), st') => handler d st'
  | other => other
  end.

Definition log (lvl : level) (rec : log_record) : M unit := emit (EvLog lvl rec).
Definition throttle : M unit := emit EvThrottle.
Definition close : M unit := emit EvClose.

Definition requests_post (rq : request) (w : world) : M Response :=
  emit (EvPost rq);;
  match w with
  | PostFails d => raise (RequestException d)
  | PostOk r => mret r
  end.

(** [r.content]: reads the whole body off the connection. *)
Definition content (r : Response) : M (list Byte.byte) :=
  emit EvContent;;
  match r_body r with
  | BodyOk b => mret b
  | BodyFails d => raise (RequestException d)
  end.

(** Lookup in [r.headers], a case-insensitive dictionary. *)
Fixpoint headers_get (k : string) (h : list (string * pyval)) : option pyval :=
  match h with
  | [] => None
  | (k', v) :: h' =>
      if String.eqb (lower_string k') (lower_string k) then Some v
      else headers_get k h'
  end.

(** [r.headers[k]] *)
Definition headers_getitem (k : string) (h : list (string * pyval)) : M pyval :=
  match headers_get k h with
  | Some v => mret v
  | None => raise (KeyError (lower_string k))
  end.

(** [p.match(v) is not None] *)
Definition pattern_match (p : pattern) (v : pyval) : M bool :=
  match v with
  | VStr s => mret (re_match p s)
  | VInt _ => raise (TypeError "expected string or bytes-like object")
  end.

(** The request [read] prepares before any i/o: headers, credentials and
    target of the [requests.post] call. *)
Definition read_headers (self : ConfigHTTP) : gmap string string :=
  headers self ∪ {[ "User-Agent" := app_id self ]}.

Definition read_auth (self : ConfigHTTP) : option (string * option string) :=
  if truthy_opt (user self) then Some (default "" (user self), password self)
  else None.

Definition read_url (self : ConfigHTTP) : string :=
  let url := schema self +:+ "://" +:+ host self in
  let url :=
    match port self with
    | Some p => url +:+ ":" +:+ pystr p
    | None => url
    end in
  url +:+ fullpath self.

Definition read_request (self : ConfigHTTP) : request :=
  {| rq_url := read_url self; rq_headers := read_headers self;
     rq_auth := read_auth self; rq_verify := verify_certificate self;
     rq_timeout := connection_timeout_sec; rq_stream := true |}.

(** [ConfigHTTP.read(self)] against the network answer [w].  The [try]
    block yields [inl v] when it executed [return v] and [inr response]
    when control left it at its end. *)
Definition read (pv : pyver) (w : world) : M (option (list Byte.byte)) :=
  get_self ≫= λ self : ConfigHTTP,
  log Debug (LogPostURL (read_url self) (verify_certificate self));;
  throttle;;
  out ← try_except
    (r ← requests_post (read_request self) w;
     if negb (status_code r =? codes_ok) then
       log Error (LogHTTPError (status_code r));;
       (if 0 <? max_error_buffer_size then
          c ← content r;
          log Debug (LogResponseDetails (take (Z.to_nat max_error_buffer_size) c))
        else mret ());;
       close;;
       mret (inl None)
     else
       over ← (if 0 <? max_buffer_size self then
                 v ← headers_getitem "Content-Length" (r_headers r);
                 lift (py_gt pv v (max_buffer_size self))
               else mret false);
       if (over : bool) then
         (* [int(max_buffer_size / 1024)], of a positive cap here *)
         log Error (LogExceedsBuffer (max_buffer_size self / 1024));;
         close;;
         mret (inl None)
       else
         response ← content r;
         let content_type :=
           default (VStr "application/octet-stream")
                   (headers_get "Content-Type" (r_headers r)) in
         (if bool_decide (config_format self = None) && truthy content_type then
            yaml ← pattern_match MIME_IS_YAML content_type;
            if (yaml : bool) then set_default_config_format YAML
            else
              text ← pattern_match MIME_IS_TEXT content_type;
              if (text : bool) then set_default_config_format TEXT else mret ()
          else mret ());;
         mret (inr (Some response)))
    (λ d,
       log Warning (LogConnectionError (host self));;
       log Debug (LogSocketException d);;
       mret (inl None));
  match out with
  | inl v => mret v
  | inr response => close;; mret response
  end.

(** Running [read] on an object with an empty trace. *)
Definition run_read (pv : pyver) (self : ConfigHTTP) (w : world)
    : res (option (list Byte.byte)) * St :=
  read pv w {| st_self := self; st_trace := [] |}.

Definition is_close (ev : event) : bool :=
  match ev with
  | EvClose => true
  | _ => false
  end.

(** How many times [r.close()] ran. *)
Definition closes (tr : list event) : nat := length (List.filter is_close tr).

(** ** [parse_url] *)

(** The dictionary objects that [results] refers to live in a store, so
    that two keys of [results] can hold the same object. *)
Definition loc := nat.

Inductive rval :=
| RNone
| RStr (s : string)
| RInt (n : Z)
| RBool (b : bool)
| RDict (l : loc).

Record parsed := {
  results : gmap string rval;
  store : gmap loc (gmap string string);
}.

Inductive parse_exn :=
| PKeyError (key : string)
| PAttributeError (name : string)
| PTypeError.

(** The dictionary at [l]; a reference handed out by the parser always
    points at one. *)
Definition deref (h : gmap loc (gmap string string)) (l : loc) : gmap string string :=
  default ∅ (h !! l).

Section parse_url.
(** [ConfigBase.parse_url]: [None] when the URL cannot be loaded. *)
Variable ConfigBase_parse_url : string → option parsed.

(** [ConfigHTTP.parse_url(url)] *)
Definition parse_url (url : string) : parse_exn + option parsed :=
  match ConfigBase_parse_url url with
  | None => inr None
  | Some p =>
      if decide (results p = ∅) then inr (Some p)
      else
        match results p !! "qsd-" with
        | None => inl (PKeyError "qsd-")
        | Some minus =>
            let results' := <["headers" := minus]> (results p) in
            match minus with
            | RDict lh =>
                match results' !! "qsd+" with
                | None => inl (PKeyError "qsd+")
                | Some (RDict lp) =>
                    let store' :=
                      <[lh := deref (store p) lp ∪ deref (store p) lh]> (store p) in
                    inr (Some {| results := results'; store := store' |})
                | Some _ => inl PTypeError
                end
            | _ => inl (PAttributeError "update")
            end
        end
  end.

(** The header dictionary [parse_url] returns under ['headers']. *)
Definition headers_of (p : parsed) : option (gmap string string) :=
  match results p !! "headers" with
  | Some (RDict l) => store p !! l
  | _ => None
  end.
End parse_url.

(** ** Reference definitions the statements compare the code with *)

(** The media types listed above [MIME_IS_YAML] and [MIME_IS_TEXT]. *)
Definition yaml_types : list string :=
  ["text/yaml"; "text/x-yaml"; "application/yaml"; "application/x-yaml"].

Definition text_types : list string := ["text/plain"; "text/html"].

Definition starts_with_any (l : list string) (s : string) : bool :=
  existsb (λ p, String.prefix p (lower_string s)) l.

(** The classifier as the specification words it: case-insensitive, YAML
    looked for before TEXT, no answer otherwise. *)
Definition spec_classify (content_type : string) : option ConfigFormat :=
  if starts_with_any yaml_types content_type then Some YAML
  else if starts_with_any text_types content_type then Some TEXT
  else None.

(** Modelled from the spec: the resolved format, which the loader in
    [ConfigBase] computes after [read]: the enforced format when there is
    one, the default otherwise. *)
Definition resolved_format (self : ConfigHTTP) : ConfigFormat :=
  default (default_config_format self) (config_format self).

(** Overlay of two header sets as the specification words it: the
    overriding set answers first. *)
Definition overlay (defaults overrides : gmap string string) (k : string)
    : option string :=
  match overrides !! k with
  | Some v => Some v
  | None => defaults !! k
  end.

(** ** Observations on a trace *)

(** The requests issued, in order. *)
Fixpoint posts (tr : list event) : list request :=
  match tr with
  | [] => []
  | EvPost rq :: tr' => rq :: posts tr'
  | _ :: tr' => posts tr'
  end.


(** How many times the body was pulled off the connection. *)
Fixpoint body_reads (tr : list event) : nat :=
  match tr with
  | [] => O
  | EvContent :: tr' => S (body_reads tr')
  | _ :: tr' => body_reads tr'
  end.

(** How many times the throttle hook ran. *)
Fixpoint throttles (tr : list event) : nat :=
  match tr with
  | [] => O
  | EvThrottle :: tr' => S (throttles tr')
  | _ :: tr' => throttles tr'
  end.

(** [self.url()] as a step of the same state machine as [read]. *)
Definition url_call `{URLBase} : M string :=
  get_self ≫= λ self : ConfigHTTP, mret (url self).

(** Two objects that agree on every attribute except
    [default_config_format]. *)
Definition same_but_default_format (a b : ConfigHTTP) : Prop :=
  schema a = schema b ∧ fullpath a = fullpath b ∧ headers a = headers b ∧
  secure a = secure b ∧ host a = host b ∧ port a = port b ∧
  user a = user b ∧ password a = password b ∧
  verify_certificate a = verify_certificate b ∧ encoding a = encoding b ∧
  config_format a = config_format b ∧ app_id a = app_id b ∧
  max_buffer_size a = max_buffer_size b.

(** [self] with another [fullpath]. *)
Definition with_fullpath (path : string) (self : ConfigHTTP) : ConfigHTTP :=
  {| base := base self; schema := schema self; fullpath := path;
     headers := headers self |}.

(** [self] with another [port]. *)
Definition with_port (prt : option Z) (self : ConfigHTTP) : ConfigHTTP :=
  let b := base self in
  {| base := {| secure := secure b; host := host b; port := prt;
                user := user b; password := password b;
                verify_certificate := verify_certificate b;
                encoding := encoding b; config_format := config_format b;
                default_config_format := default_config_format b;
                app_id := app_id b; max_buffer_size := max_buffer_size b |};
     schema := schema self; fullpath := fullpath self;
     headers := headers self |}.

(** ** Sample objects and responses *)

Definition sample_base (sec : bool) (prt : option Z) (fmt : option ConfigFormat)
    (cap : Z) : ConfigBase :=
  {| secure := sec; host := "localhost"; port := prt; user := None;
     password := None; verify_certificate := true; encoding := "utf-8";
     config_format := fmt; default_config_format := TEXT;
     app_id := "Apprise"; max_buffer_size := cap |}.

(** [http://localhost/], no enforced format, responses capped at 1024 bytes. *)
Definition cfg_plain : ConfigHTTP :=
  init (sample_base false None None 1024) None None.

(** The same endpoint without a cap. *)
Definition cfg_uncapped : ConfigHTTP :=
  init (sample_base false None None 0) None None.

(** The same endpoint with the format enforced. *)
Definition cfg_text : ConfigHTTP :=
  init (sample_base false None (Some TEXT) 0) None None.

(** [http://localhost/cfg/apprise.yml] *)
Definition cfg_path : ConfigHTTP :=
  init (sample_base false None None 1024) None (Some (VStr "/cfg/apprise.yml")).

Definition cfg_https (prt : Z) : ConfigHTTP :=
  init (sample_base true (Some prt) None 1024) None None.

Definition sample_body : list Byte.byte :=
  [Byte.x75; Byte.x72; Byte.x6c; Byte.x73; Byte.x3a].

Definition ok_response (h : list (string * pyval)) (b : body) : world :=
  PostOk {| status_code := 200; r_headers := h; r_body := b |}.

Definition yaml_response : Response :=
  {| status_code := 200;
     r_headers := [("Content-Type", VStr "Application/X-YAML; charset=utf-8")];
     r_body := BodyOk sample_body |}.

(** A response as [requests] delivers it: the declared length is text. *)
Definition short_response : Response :=
  {| status_code := 200;
     r_headers := [("Content-Length", VStr "5"); ("Content-Type", VStr "text/plain")];
     r_body := BodyOk sample_body |}.

(** A response without a declared length. *)
Definition chunked_response : Response :=
  {| status_code := 200;
     r_headers := [("Transfer-Encoding", VStr "chunked");
                   ("Content-Type", VStr "text/plain")];
     r_body := BodyOk sample_body |}.

(** Responses whose body breaks off while it is read: behind an error
    status, and behind status 200. *)
Definition broken_error_response : Response :=
  {| status_code := 502;
     r_headers := [("Content-Type", VStr "text/html")];
     r_body := BodyFails "Connection reset by peer" |}.

(** A response that declares, as a number, more than 1024 bytes. *)
Definition large_response : Response :=
  {| status_code := 200;
     r_headers := [("Content-Length", VInt 2048); ("Content-Type", VStr "text/plain")];
     r_body := BodyOk (replicate 2048 Byte.x2e) |}.

Definition broken_response : Response :=
  {| status_code := 200;
     r_headers := [("Content-Type", VStr "text/plain")];
     r_body := BodyFails "Connection reset by peer" |}.

(** What a base parser returns for
    [http://localhost/?-X-A=1&+X-A=2&+X-B=3]: two bucket dictionaries in
    the store, referred to from [results]. *)
Definition sample_parsed : parsed :=
  {| results := {[ "host" := RStr "localhost"; "qsd-" := RDict 0%nat;
                   "qsd+" := RDict 1%nat ]};
     store := {[ 0%nat := {[ "X-A" := "1" ]};
                 1%nat := {[ "X-A" := "2"; "X-B" := "3" ]} ]} |}.

(** A response that declares, as a number, exactly 1024 bytes and sends
    five. *)
Definition exact_response : Response :=
  {| status_code := 200;
     r_headers := [("Content-Length", VInt 1024); ("Content-Type", VStr "text/plain")];
     r_body := BodyOk sample_body |}.

(** A 404 whose body is longer than the diagnostic echo. *)
Definition not_found : Response :=
  {| status_code := 404; r_headers := [];
     r_body := BodyOk (replicate 3000 Byte.x2e) |}.

(** * Properties *)

(** ** The MIME patterns *)

Section regex_facts.
Variable ic : bool.

Lemma lit_match_app (p q s : string) :
  lit_match ic (p +:+ q) s = lit_match ic p s ≫= lit_match ic q.
Proof.
  revert s. induction p as [|a p IH]; intros s; simpl; [done|].
  destruct s as [|b s]; [done|]. destruct (chr_eq ic a b); [apply IH|done].
Qed.

Lemma rests_expand (r : regex) (s t : string) :
  In t (rests ic r s) ↔ ∃ p, In p (expand r) ∧ lit_match ic p s = Some t.
Proof.
  revert s t. induction r as [p|r1 IH1 r2 IH2|r1 IH1 r2 IH2|r1 IH1]; intros s t; simpl.
  - destruct (lit_match ic p s) as [u|] eqn:E; simpl; split.
    + intros [->|[]]. eauto.
    + intros (q & [<-|[]] & Hq). left. congruence.
    + intros [].
    + intros (q & [<-|[]] & Hq). congruence.
  - rewrite in_flat_map. split.
    + intros (u & Hu & Ht). apply IH1 in Hu as (p1 & Hp1 & E1).
      apply IH2 in Ht as (p2 & Hp2 & E2). exists (p1 +:+ p2). split.
      * apply in_flat_map. exists p1. split; [done|]. apply in_map_iff. eauto.
      * rewrite lit_match_app, E1. exact E2.
    + intros (p & Hp & E). apply in_flat_map in Hp as (p1 & Hp1 & Hp).
      apply in_map_iff in Hp as (p2 & <- & Hp2). rewrite lit_match_app in E.
      destruct (lit_match ic p1 s) as [u|] eqn:E1; [|done]. exists u. split.
      * apply IH1. eauto.
      * apply IH2. eauto.
  - rewrite in_app_iff, IH1, IH2. split.
    + intros [(p & Hp & E)|(p & Hp & E)]; exists p; rewrite in_app_iff; eauto.
    + intros (p & Hp & E). apply in_app_iff in Hp as [Hp|Hp]; eauto.
  - rewrite in_app_iff, IH1. split.
    + intros [(p & Hp & E)|[<-|[]]].
      * exists p. rewrite in_app_iff. eauto.
      * exists EmptyString. rewrite in_app_iff. simpl. eauto.
    + intros (p & Hp & E). apply in_app_iff in Hp as [Hp|[<-|[]]]; [eauto|].
      right. left. simpl in E. congruence.
Qed.
End regex_facts.

Lemma re_match_expand (p : pattern) (s : string) :
  re_match p s = existsb (λ q, bool_decide (is_Some (lit_match (re_I p) q s))) (expand (re_expr p)).
Proof.
  apply eq_true_iff_eq. rewrite existsb_exists. unfold re_match. split.
  - destruct (rests _ _ s) as [|t l] eqn:E; [done|]. intros _.
    assert (In t (rests (re_I p) (re_expr p) s)) as Ht by (rewrite E; by left).
    apply rests_expand in Ht as (q & Hq & Eq). exists q. split; [done|].
    apply bool_decide_eq_true. eauto.
  - intros (q & Hq & Hs). apply bool_decide_eq_true in Hs as [t Ht].
    assert (In t (rests (re_I p) (re_expr p) s)) as Hin by (apply rests_expand; eauto).
    destruct (rests _ _ s); [destruct Hin|done].
Qed.

Lemma lit_match_lower (q s : string) :
  lower_string q = q →
  bool_decide (is_Some (lit_match true q s)) = String.prefix q (lower_string s).
Proof.
  revert s. induction q as [|a q IH]; intros s Hq; simpl.
  - destruct s; reflexivity.
  - injection Hq as Ha Hq. destruct s as [|b s]; simpl.
    + reflexivity.
    + unfold chr_eq. rewrite Ha. destruct (ascii_dec a (lower b)) as [->|Hne].
      * rewrite Ascii.eqb_refl. by apply IH.
      * apply Ascii.eqb_neq in Hne. rewrite Hne. reflexivity.
Qed.

Lemma MIME_IS_YAML_types (s : string) :
  re_match MIME_IS_YAML s = starts_with_any yaml_types s.
Proof.
  rewrite re_match_expand. unfold starts_with_any. cbn [MIME_IS_YAML re_expr re_I].
  unfold yaml_types. cbv [expand flat_map map app String.append existsb].
  rewrite !lit_match_lower by reflexivity.
  repeat destruct (String.prefix _ _); reflexivity.
Qed.

Lemma MIME_IS_TEXT_types (s : string) :
  re_match MIME_IS_TEXT s = starts_with_any text_types s.
Proof.
  rewrite re_match_expand. unfold starts_with_any. cbn [MIME_IS_TEXT re_expr re_I].
  unfold text_types. cbv [expand flat_map map app String.append existsb].
  rewrite !lit_match_lower by reflexivity.
  repeat destruct (String.prefix _ _); reflexivity.
Qed.

(** ** [read]: the shape of a run *)

Ltac unfold_M :=
  unfold try_except, requests_post, content, headers_getitem, pattern_match,
    lift, log, throttle, close, emit, get_self, set_default_config_format,
    raise, mbind, M_bind, mret, M_ret.

Ltac read_cbn :=
  cbn -[re_match headers_get read_request read_url Z.div Z.ltb Z.eqb truthy
        max_error_buffer_size take Z.to_nat] in *.

(** One case split of [read], on whichever test comes first in the goal. *)
Ltac read_step :=
  match goal with
  | |- context [match ?w with PostFails _ => _ | PostOk _ => _ end] => destruct w
  | |- context [negb (?a =? codes_ok)] => destruct (a =? codes_ok) eqn:?
  | |- context [match r_body ?r with BodyOk _ => _ | BodyFails _ => _ end] =>
      destruct (r_body r) eqn:?
  | |- context [if 0 <? ?n then _ else _] => destruct (0 <? n) eqn:?
  | |- context [match headers_get ?k ?h with Some _ => _ | None => _ end] =>
      destruct (headers_get k h) as [[?|?]|] eqn:?
  | |- context [default _ (headers_get ?k ?h)] =>
      destruct (headers_get k h) as [[?|?]|] eqn:?
  | |- context [match ?pv with Py2 => _ | Py3 => _ end] => destruct pv
  | |- context [if ?n <? ?m then _ else _] => destruct (n <? m) eqn:?
  | |- context [bool_decide (config_format ?s = None)] =>
      destruct (config_format s) eqn:?
  | |- context [if truthy ?v then _ else _] => destruct (truthy v) eqn:?
  | |- context [if re_match ?p ?s then _ else _] => destruct (re_match p s) eqn:?
  end; read_cbn.

Ltac read_unfold :=
  unfold run_read, read; unfold_M;
  change (0 <? max_error_buffer_size) with true; read_cbn.

Ltac run_read_cases := read_unfold; repeat read_step.

Lemma read_frame pv self w :
  same_but_default_format (st_self (run_read pv self w).2) self.
Proof.
  unfold same_but_default_format.
  run_read_cases; repeat split; first [reflexivity | congruence].
Qed.

Lemma read_posts_once pv self w :
  posts (st_trace (run_read pv self w).2) = [read_request self].
Proof.
  run_read_cases; done.
Qed.

Lemma read_closes_at_most_once pv self w :
  (closes (st_trace (run_read pv self w).2) ≤ 1)%nat.
Proof.
  unfold closes. run_read_cases; lia.
Qed.

(** Whenever [read] hands back a value and nothing was raised on the way,
    the connection was closed once. *)
Lemma read_closes_once_when_body_arrives pv self r b v :
  r_body r = BodyOk b →
  (run_read pv self (PostOk r)).1 = Val v →
  closes (st_trace (run_read pv self (PostOk r)).2) = 1%nat.
Proof.
  unfold closes. intros Hb. revert Hb. run_read_cases; intros; simplify_eq; done.
Qed.

(** No response, no connection object, nothing to close. *)
Lemma read_post_failure pv self d :
  run_read pv self (PostFails d) =
    (Val None,
     {| st_self := self;
        st_trace := [EvLog Debug (LogPostURL (read_url self) (verify_certificate self));
                     EvThrottle; EvPost (read_request self);
                     EvLog Warning (LogConnectionError (host self));
                     EvLog Debug (LogSocketException d)] |}).
Proof. reflexivity. Qed.

(** ** Request headers *)

Lemma read_headers_lookup (self : ConfigHTTP) (k : string) :
  read_headers self !! k = overlay {[ "User-Agent" := app_id self ]} (headers self) k.
Proof.
  unfold read_headers, overlay. rewrite lookup_union.
  destruct (headers self !! k) as [v|]; simpl.
  - by destruct ({[ "User-Agent" := app_id self ]} !! k).
  - by rewrite (left_id None _).
Qed.

(** C8.  Every call of [read] issues exactly one request, and its headers
    are [{"User-Agent": app_id}] overlaid by the headers of the object: a
    header of the object is sent with the object's value, also when its
    name is [User-Agent], and [User-Agent] carries the application
    identifier otherwise. *)
Theorem read_request_headers pv (self : ConfigHTTP) w :
  posts (st_trace (run_read pv self w).2) = [read_request self] ∧
  (∀ k, rq_headers (read_request self) !! k
        = overlay {[ "User-Agent" := app_id self ]} (headers self) k) ∧
  (∀ k v, headers self !! k = Some v →
          rq_headers (read_request self) !! k = Some v) ∧
  (headers self !! "User-Agent" = None →
   rq_headers (read_request self) !! "User-Agent" = Some (app_id self)) ∧
  (∀ k, k ≠ "User-Agent" →
        rq_headers (read_request self) !! k = headers self !! k).
Proof.
  split; [apply read_posts_once|]. cbn [read_request rq_headers].
  repeat split; intros *.
  - apply read_headers_lookup.
  - intros Hk. rewrite read_headers_lookup. unfold overlay. by rewrite Hk.
  - intros Hk. rewrite read_headers_lookup. unfold overlay. rewrite Hk.
    apply lookup_singleton_eq.
  - intros Hk. rewrite read_headers_lookup. unfold overlay.
    destruct (headers self !! k); [done|]. by apply lookup_singleton_ne.
Qed.

(** ** HTTP status failures *)



(** ** Format detection *)

Lemma spec_classify_empty : spec_classify "" = None.
Proof. reflexivity. Qed.

Lemma truthy_VStr_false (s : string) : truthy (VStr s) = false → s = "".
Proof.
  unfold truthy. intros Hs. apply negb_false_iff in Hs. by apply String.eqb_eq.
Qed.

(** C5.  After a fetch that returns the body, the enforced format is what
    it was.  When a format is enforced the default format is not touched
    and the enforced one is the resolved format.  Otherwise the
    Content-Type (or [application/octet-stream] when the header is absent)
    is classified without regard to case, YAML first, then TEXT, and the
    default format becomes the class found or is left as it was when
    there is none. *)
Theorem read_resolves_format pv (self : ConfigHTTP) (r : Response)
    (ct : string) (b : list Byte.byte) :
  default (VStr "application/octet-stream")
          (headers_get "Content-Type" (r_headers r)) = VStr ct →
  (run_read pv self (PostOk r)).1 = Val (Some b) →
  config_format (st_self (run_read pv self (PostOk r)).2) = config_format self ∧
  default_config_format (st_self (run_read pv self (PostOk r)).2) =
    match config_format self with
    | Some _ => default_config_format self
    | None => default (default_config_format self) (spec_classify ct)
    end ∧
  resolved_format (st_self (run_read pv self (PostOk r)).2) =
    match config_format self with
    | Some f => f
    | None => default (default_config_format self) (spec_classify ct)
    end.
Proof.
  intros Hct Hres. revert Hct Hres. unfold resolved_format.
  run_read_cases; intros Hct Hres; simplify_eq;
    repeat match goal with
    | H : re_match MIME_IS_YAML _ = _ |- _ => rewrite MIME_IS_YAML_types in H
    | H : re_match MIME_IS_TEXT _ = _ |- _ => rewrite MIME_IS_TEXT_types in H
    | H : truthy (VStr _) = false |- _ => apply truthy_VStr_false in H; subst
    | H : config_format _ = _ |- _ => rewrite H
    end;
    unfold spec_classify;
    repeat match goal with H : starts_with_any _ _ = _ |- _ => rewrite H end;
    repeat split; reflexivity.
Qed.

Lemma read_resolves_format_witness :
  (run_read Py3 cfg_uncapped (PostOk yaml_response)).1 = Val (Some sample_body) ∧
  resolved_format (st_self (run_read Py3 cfg_uncapped (PostOk yaml_response)).2) = YAML.
Proof.
  split; [reflexivity|].
  exact (proj2 (proj2 (read_resolves_format Py3 cfg_uncapped yaml_response
                         "Application/X-YAML; charset=utf-8" sample_body
                         eq_refl eq_refl))).
Defined.

(** An enforced format keeps [read] from looking at the Content-Type. *)
Example read_enforced_format_wins :
  spec_classify "Application/X-YAML; charset=utf-8" = Some YAML ∧
  st_self (run_read Py3 cfg_text (PostOk yaml_response)).2 = cfg_text ∧
  resolved_format (st_self (run_read Py3 cfg_text (PostOk yaml_response)).2) = TEXT.
Proof. repeat split; reflexivity. Qed.

(** ** What [read] and [url] do to the object *)

(** C9, as the code has it.  A fetch of a YAML document through an object
    without an enforced format changes the default format of the object. *)
Lemma read_changes_default_format :
  default_config_format cfg_uncapped = TEXT ∧
  default_config_format
    (st_self (run_read Py3 cfg_uncapped (PostOk yaml_response)).2) = YAML.
Proof. split; reflexivity. Qed.

(** C9, amended.  [read] leaves every attribute other than the default
    format as it was (scheme, path, headers, host, port, credentials,
    certificate flag, encoding, enforced format, application identifier,
    buffer cap); it changes the default format only when no format is
    enforced and the fetch returns the body.  [url] changes nothing. *)
Theorem read_url_preserve_object `{URLBase} pv (self : ConfigHTTP) w :
  same_but_default_format (st_self (run_read pv self w).2) self ∧
  (default_config_format (st_self (run_read pv self w).2)
     ≠ default_config_format self →
   config_format self = None ∧ ∃ b, (run_read pv self w).1 = Val (Some b)) ∧
  (∀ st, url_call st = (Val (url (st_self st)), st)).
Proof.
  split; [apply read_frame|]. split; [|done].
  run_read_cases; intros Hne; try done; eauto.
Qed.

(** ** Releasing the connection *)

(** A body read that fails is caught by the handler, which returns
    without closing the response. *)
Lemma read_no_close_after_failed_body_read pv (self : ConfigHTTP) (r : Response) d :
  r_body r = BodyFails d →
  body_reads (st_trace (run_read pv self (PostOk r)).2) = 1%nat →
  (run_read pv self (PostOk r)).1 = Val None ∧
  closes (st_trace (run_read pv self (PostOk r)).2) = 0%nat.
Proof.
  intros Hb. revert Hb. unfold closes.
  run_read_cases; intros; simplify_eq; done.
Qed.

(** C1, at a response with status 502 whose body breaks off while [read]
    pulls it for the log, and at one with status 200 read without a cap:
    the request was made and the body read begun, [read] returns [None],
    and [close] was never called. *)
Theorem read_leaves_connection_open pv :
  (run_read pv cfg_plain (PostOk broken_error_response)).1 = Val None ∧
  posts (st_trace (run_read pv cfg_plain (PostOk broken_error_response)).2)
    = [read_request cfg_plain] ∧
  body_reads (st_trace (run_read pv cfg_plain (PostOk broken_error_response)).2)
    = 1%nat ∧
  closes (st_trace (run_read pv cfg_plain (PostOk broken_error_response)).2)
    = 0%nat ∧
  (run_read pv cfg_uncapped (PostOk broken_response)).1 = Val None ∧
  body_reads (st_trace (run_read pv cfg_uncapped (PostOk broken_response)).2)
    = 1%nat ∧
  closes (st_trace (run_read pv cfg_uncapped (PostOk broken_response)).2)
    = 0%nat.
Proof. destruct pv; repeat split; reflexivity. Qed.

(** ** Exceptions that leave [read] *)

(** C2, at a response with status 200 and no Content-Length header, read
    through an object with a positive buffer cap: the subscript raises
    [KeyError], which the handler for [RequestException] lets through. *)
Theorem read_raises_without_content_length pv :
  (run_read pv cfg_plain (PostOk chunked_response)).1
    = Raise (KeyError "content-length") ∧
  closes (st_trace (run_read pv cfg_plain (PostOk chunked_response)).2) = 0%nat.
Proof. destruct pv; split; reflexivity. Qed.

(** The same holds of every object with a positive cap and every response
    with status 200 that declares no length. *)
Lemma read_raises_KeyError pv (self : ConfigHTTP) (r : Response) :
  status_code r = codes_ok →
  0 < max_buffer_size self →
  headers_get "Content-Length" (r_headers r) = None →
  (run_read pv self (PostOk r)).1 = Raise (KeyError "content-length").
Proof.
  intros Hs Hc Hh. apply Z.eqb_eq in Hs. apply Z.ltb_lt in Hc.
  read_unfold. rewrite Hs, Hc. read_cbn. rewrite Hh. reflexivity.
Qed.

(** ** The size guard *)

(** C3, at a response with status 200 that declares, as text, a length of
    5 bytes, read through an object with a cap of 1024 bytes: on Python 3
    the comparison raises [TypeError]; on Python 2 it holds whatever the
    text and [read] returns [None]; either way the body is not read. *)
Theorem read_rejects_length_within_cap :
  max_buffer_size cfg_plain = 1024 ∧
  headers_get "Content-Length" (r_headers short_response) = Some (VStr "5") ∧
  (run_read Py3 cfg_plain (PostOk short_response)).1
    = Raise (TypeError "'>' not supported between instances of 'str' and 'int'") ∧
  (run_read Py2 cfg_plain (PostOk short_response)).1 = Val None ∧
  body_reads (st_trace (run_read Py3 cfg_plain (PostOk short_response)).2) = 0%nat ∧
  body_reads (st_trace (run_read Py2 cfg_plain (PostOk short_response)).2) = 0%nat.
Proof. repeat split; reflexivity. Qed.

(** Where the guard does what is asked of it: the declared length is a
    number (or the cap is off), and the body arrives. *)
Lemma read_size_guard_int pv (self : ConfigHTTP) (r : Response) (b : list Byte.byte) ct :
  status_code r = codes_ok →
  r_body r = BodyOk b →
  default (VStr "application/octet-stream")
          (headers_get "Content-Type" (r_headers r)) = VStr ct →
  (max_buffer_size self ≤ 0 ∨
   ∃ n, headers_get "Content-Length" (r_headers r) = Some (VInt n)) →
  let declared :=
    match headers_get "Content-Length" (r_headers r) with
    | Some (VInt n) => n
    | _ => 0
    end in
  let out := run_read pv self (PostOk r) in
  closes (st_trace out.2) = 1%nat ∧
  if bool_decide (0 < max_buffer_size self ∧ max_buffer_size self < declared)
  then out.1 = Val None ∧ body_reads (st_trace out.2) = 0%nat
  else out.1 = Val (Some b) ∧ body_reads (st_trace out.2) = 1%nat.
Proof.
  intros Hs Hb Hct Hcap. apply Z.eqb_eq in Hs. revert Hs Hb Hct Hcap. unfold closes.
  run_read_cases; intros Hs Hb Hct Hcap; simplify_eq;
    repeat match goal with
    | H : (_ <? _) = true |- _ => apply Z.ltb_lt in H
    | H : (_ <? _) = false |- _ => apply Z.ltb_ge in H
    | H : _ ∨ _ |- _ => destruct H as [?|[? ?]]
    end; simplify_eq; try lia;
    case_bool_decide; try lia; done.
Qed.

(** A cap of 1024 bytes against a declared 2048: rejected, closed once,
    body untouched. *)
Example read_oversize_rejected pv :
  (run_read pv cfg_plain (PostOk large_response)).1 = Val None ∧
  body_reads (st_trace (run_read pv cfg_plain (PostOk large_response)).2) = 0%nat ∧
  closes (st_trace (run_read pv cfg_plain (PostOk large_response)).2) = 1%nat.
Proof.
  destruct (read_size_guard_int pv cfg_plain large_response
              (replicate 2048 Byte.x2e) "text/plain" eq_refl eq_refl eq_refl
              (or_intror (ex_intro _ 2048 eq_refl))) as (Hc & Hr & Hb).
  done.
Qed.

(** ** The canonical URL *)

(** C6.  [url] is scheme, [://], credentials, host, port segment, [/?]
    and the encoded arguments.  The port segment is empty exactly when
    the port is absent or is the default of the scheme (443 for https, 80
    for http), and is [:port] for every other port.  With https, port
    443 gives no segment and port 8443 gives [:8443]. *)
Theorem url_port_segment `{URLBase} (self : ConfigHTTP) :
  url self = (if secure self then "https" else "http") +:+ "://"
             +:+ url_auth self +:+ host self +:+ url_port self
             +:+ "/?" +:+ urlencode (url_args self) ∧
  default_port self = (if secure self then 443 else 80) ∧
  (url_port self = "" ↔
   port self = None ∨ port self = Some (default_port self)) ∧
  (∀ p, port self = Some p → p ≠ default_port self →
        url_port self = ":" +:+ pystr p) ∧
  url_port (cfg_https 443) = "" ∧
  url (cfg_https 443) = "https://localhost/?" +:+ urlencode (url_args (cfg_https 443)) ∧
  url_port (cfg_https 8443) = ":8443" ∧
  url (cfg_https 8443)
    = "https://localhost:8443/?" +:+ urlencode (url_args (cfg_https 8443)).
Proof.
  split; [reflexivity|]. split; [reflexivity|]. split; [|split].
  - unfold url_port. destruct (port self) as [p|]; [|naive_solver].
    destruct (p =? default_port self) eqn:Hp.
    + apply Z.eqb_eq in Hp. subst. naive_solver.
    + apply Z.eqb_neq in Hp. split; [discriminate|]. intros [?|?]; congruence.
  - intros p Hp Hne. unfold url_port. rewrite Hp.
    apply Z.eqb_neq in Hne. by rewrite Hne.
  - repeat split; reflexivity.
Qed.

(** [url] does not look at the path of the object. *)
Lemma url_with_fullpath `{URLBase} (path : string) (self : ConfigHTTP) :
  url (with_fullpath path self) = url self.
Proof. reflexivity. Qed.

(** C4, at two objects that differ in their path only: [read] posts to
    different addresses, [url] gives one and the same string, and so
    [parse_url] gives one answer for both, whatever the base parser. *)
Theorem url_drops_fullpath `{URLBase} (base_parse_url : string → option parsed) :
  fullpath cfg_path = "/cfg/apprise.yml" ∧
  fullpath cfg_plain = "/" ∧
  read_url cfg_path = "http://localhost/cfg/apprise.yml" ∧
  read_url cfg_plain = "http://localhost/" ∧
  url cfg_path = url cfg_plain ∧
  parse_url base_parse_url (url cfg_path) = parse_url base_parse_url (url cfg_plain).
Proof. repeat split; reflexivity. Qed.

(** ** Headers returned by [parse_url] *)

Lemma overlay_union (minus plus : gmap string string) (k : string) :
  (plus ∪ minus) !! k = overlay minus plus k.
Proof.
  unfold overlay. rewrite lookup_union.
  destruct (plus !! k); simpl; [by destruct (minus !! k)|by rewrite (left_id None _)].
Qed.

(** C7.  When the base parser yields the two buckets ['qsd-'] and
    ['qsd+'], [parse_url] succeeds and the dictionary it returns under
    ['headers'] is the minus bucket overlaid by the plus bucket: a key of
    the plus bucket has the plus value, any other key has the value of
    the minus bucket. *)
Theorem parse_url_headers_overlay (base_parse_url : string → option parsed)
    (url : string) (p : parsed) (lm lp : loc) (minus plus : gmap string string) :
  base_parse_url url = Some p →
  results p !! "qsd-" = Some (RDict lm) →
  results p !! "qsd+" = Some (RDict lp) →
  store p !! lm = Some minus →
  store p !! lp = Some plus →
  ∃ p', parse_url base_parse_url url = inr (Some p') ∧
        headers_of p' = Some (plus ∪ minus) ∧
        ∀ k, (plus ∪ minus) !! k = overlay minus plus k.
Proof.
  intros Hp Hm Hq Hsm Hsp. unfold parse_url. rewrite Hp.
  destruct (decide (results p = ∅)) as [He|_].
  { rewrite He in Hm. by rewrite lookup_empty in Hm. }
  rewrite Hm. rewrite lookup_insert_ne by done. rewrite Hq.
  eexists. split; [reflexivity|]. split; [|apply overlay_union].
  unfold headers_of, deref. cbn. rewrite lookup_insert_eq, lookup_insert_eq.
  by rewrite Hsm, Hsp.
Qed.

Lemma parse_url_headers_overlay_witness :
  ∃ p', parse_url (λ _, Some sample_parsed) "http://localhost/?-X-A=1&+X-A=2&+X-B=3"
          = inr (Some p') ∧
        headers_of p' = Some {[ "X-A" := "2"; "X-B" := "3" ]}.
Proof.
  destruct (parse_url_headers_overlay (λ _, Some sample_parsed)
              "http://localhost/?-X-A=1&+X-A=2&+X-B=3" sample_parsed 0%nat 1%nat
              {[ "X-A" := "1" ]} {[ "X-A" := "2"; "X-B" := "3" ]}
              eq_refl eq_refl eq_refl eq_refl eq_refl) as (p' & Hp & Hh & _).
  exists p'. split; [exact Hp|]. rewrite Hh. reflexivity.
Defined.

(** ['headers'] and ['qsd-'] name one dictionary afterwards: the overlay
    is written into the minus bucket itself. *)
Lemma parse_url_headers_alias (base_parse_url : string → option parsed)
    (url : string) (p' : parsed) :
  parse_url base_parse_url url = inr (Some p') →
  results p' ≠ ∅ →
  results p' !! "headers" = results p' !! "qsd-".
Proof.
  unfold parse_url. intros Hp Hne.
  destruct (base_parse_url url) as [p|]; [|done].
  destruct (decide (results p = ∅)) as [He|_]; [by simplify_eq|].
  destruct (results p !! "qsd-") as [[| | | |lh]|] eqn:Hm; try done.
  rewrite lookup_insert_ne in Hp by done.
  destruct (results p !! "qsd+") as [[| | | |lp]|]; try done.
  simplify_eq. cbn. by rewrite lookup_insert_eq, lookup_insert_ne.
Qed.

(** * Further properties of the module *)

(** ** The patterns as [match] uses them *)

Lemma lit_match_more (ic : bool) (q s t u : string) :
  lit_match ic q s = Some t → lit_match ic q (s +:+ u) = Some (t +:+ u).
Proof.
  revert s. induction q as [|a q IH]; intros s; simpl.
  - by intros [= ->].
  - destruct s as [|b s]; [done|]. simpl. destruct (chr_eq ic a b); [apply IH|done].
Qed.

(** X1.  [match] anchors a pattern at the start of the text only: text
    that matches still matches with anything appended, such as the
    [; charset=...] parameter of a Content-Type. *)
Theorem re_match_open_ended (p : pattern) (s u : string) :
  re_match p s = true → re_match p (s +:+ u) = true.
Proof.
  rewrite !re_match_expand, !existsb_exists. intros (q & Hq & Hs).
  exists q. split; [done|]. apply bool_decide_eq_true in Hs as [t Ht].
  apply bool_decide_eq_true. exists (t +:+ u). by apply lit_match_more.
Qed.

Lemma re_match_open_ended_witness :
  re_match MIME_IS_TEXT "text/html" = true ∧
  re_match MIME_IS_TEXT "text/html; charset=utf-8" = true.
Proof.
  split; [reflexivity|].
  exact (re_match_open_ended MIME_IS_TEXT "text/html" "; charset=utf-8" eq_refl).
Defined.

Lemma lower_lower (c : ascii) : lower (lower c) = lower c.
Proof. destruct c as [[] [] [] [] [] [] [] []]; reflexivity. Qed.

Lemma lit_match_ignores_case (q s : string) :
  bool_decide (is_Some (lit_match true q (lower_string s)))
  = bool_decide (is_Some (lit_match true q s)).
Proof.
  revert s. induction q as [|a q IH]; intros s; simpl; [done|].
  destruct s as [|b s]; simpl; [done|]. unfold chr_eq. rewrite lower_lower.
  destruct (Ascii.eqb (lower a) (lower b)); [apply IH|done].
Qed.

(** X2.  A pattern compiled with [re.I] sees the text up to the case of
    its ASCII letters: two texts with the same lower-case form match
    alike. *)
Theorem re_match_ignores_case (p : pattern) (s1 s2 : string) :
  re_I p = true →
  lower_string s1 = lower_string s2 →
  re_match p s1 = re_match p s2.
Proof.
  intros Hi Hl. rewrite !re_match_expand, Hi.
  assert (∀ s, existsb (λ q, bool_decide (is_Some (lit_match true q s)))
                 (expand (re_expr p))
               = existsb (λ q, bool_decide (is_Some (lit_match true q (lower_string s))))
                   (expand (re_expr p))) as Hs.
  { intros s. induction (expand (re_expr p)) as [|q l IH]; simpl; [done|].
    by rewrite lit_match_ignores_case, IH. }
  by rewrite (Hs s1), (Hs s2), Hl.
Qed.

Lemma re_match_ignores_case_witness :
  re_match MIME_IS_YAML "TEXT/X-Yaml" = re_match MIME_IS_YAML "text/x-yaml".
Proof.
  exact (re_match_ignores_case MIME_IS_YAML "TEXT/X-Yaml" "text/x-yaml"
           eq_refl eq_refl).
Defined.

(** X3.  The comments above the two patterns list what they accept:
    [MIME_IS_YAML] matches exactly the texts that begin, in any case,
    with [text/yaml], [text/x-yaml], [application/yaml] or
    [application/x-yaml], and [MIME_IS_TEXT] exactly those that begin
    with [text/plain] or [text/html]. *)
Theorem mime_patterns_accept (s : string) :
  re_match MIME_IS_YAML s = starts_with_any yaml_types s ∧
  re_match MIME_IS_TEXT s = starts_with_any text_types s.
Proof. split; [apply MIME_IS_YAML_types|apply MIME_IS_TEXT_types]. Qed.

Lemma prefix_cons (a : ascii) (p t : string) :
  String.prefix (String a p) t = true →
  ∃ t', t = String a t' ∧ String.prefix p t' = true.
Proof.
  destruct t as [|b t]; simpl; [done|].
  destruct (ascii_dec a b) as [->|]; [eauto|done].
Qed.

Ltac prefix_inv H :=
  repeat (apply prefix_cons in H as (? & -> & H)).

(** X4.  No text is matched by both patterns, so the order in which
    [read] tries them decides nothing. *)
Theorem mime_patterns_disjoint (s : string) :
  re_match MIME_IS_YAML s && re_match MIME_IS_TEXT s = false.
Proof.
  rewrite MIME_IS_YAML_types, MIME_IS_TEXT_types. unfold starts_with_any.
  generalize (lower_string s) as t. intros t.
  cbn [existsb yaml_types text_types].
  destruct (String.prefix "text/plain" t) eqn:Hp.
  { prefix_inv Hp. reflexivity. }
  destruct (String.prefix "text/html" t) eqn:Hh.
  { prefix_inv Hh. reflexivity. }
  by rewrite !orb_false_r, andb_false_r.
Qed.

(** ** The effects of [read], in order *)

(** X5.  Every run of [read] begins with the debug record of the
    address, then the throttle hook, then the request: the hook runs
    exactly once, before any i/o, and nothing is requested a second
    time. *)
Theorem read_throttles_before_post pv (self : ConfigHTTP) w :
  ∃ tl, st_trace (run_read pv self w).2
          = EvLog Debug (LogPostURL (read_url self) (verify_certificate self))
            :: EvThrottle :: EvPost (read_request self) :: tl ∧
        throttles tl = 0%nat ∧ posts tl = [].
Proof.
  run_read_cases; eexists; (split; [reflexivity|]); split; reflexivity.
Qed.

(** X6.  The body is pulled at most once in a run, and when [read]
    closes the response that is the last thing it does: nothing is read
    or logged after the close. *)
Theorem read_close_is_last pv (self : ConfigHTTP) w :
  (body_reads (st_trace (run_read pv self w).2) ≤ 1)%nat ∧
  (closes (st_trace (run_read pv self w).2) = 1%nat →
   last (st_trace (run_read pv self w).2) = Some EvClose).
Proof.
  unfold closes. run_read_cases; split; first [lia | done].
Qed.

(** ** What [read] gives back *)

(** X7.  A run of [read] ends in a value or in one of two exceptions: the
    [KeyError] of the Content-Length subscript, only behind status 200
    with a positive cap and no such header, or a [TypeError], only
    behind status 200.  A [RequestException] never leaves [read]. *)
Theorem read_outcomes pv (self : ConfigHTTP) w :
  match (run_read pv self w).1 with
  | Val _ => True
  | Raise (RequestException _) => False
  | Raise (KeyError k) =>
      k = "content-length" ∧ 0 < max_buffer_size self ∧
      ∃ r, w = PostOk r ∧ status_code r = codes_ok ∧
           headers_get "Content-Length" (r_headers r) = None
  | Raise (TypeError _) => ∃ r, w = PostOk r ∧ status_code r = codes_ok
  end.
Proof.
  run_read_cases; try done;
    repeat match goal with
    | H : (_ =? _) = true |- _ => apply Z.eqb_eq in H
    | H : (_ <? _) = true |- _ => apply Z.ltb_lt in H
    end; eauto 10.
Qed.

(** X8.  When [read] returns bytes they are the body of a response with
    status 200, read once and unchanged, and the response was closed
    once. *)
Theorem read_returns_the_body pv (self : ConfigHTTP) w (b : list Byte.byte) :
  (run_read pv self w).1 = Val (Some b) →
  ∃ r, w = PostOk r ∧ status_code r = codes_ok ∧ r_body r = BodyOk b ∧
       body_reads (st_trace (run_read pv self w).2) = 1%nat ∧
       closes (st_trace (run_read pv self w).2) = 1%nat.
Proof.
  unfold closes. run_read_cases; intros Hr; simplify_eq;
    repeat match goal with
    | H : (_ =? _) = true |- _ => apply Z.eqb_eq in H
    end; eauto 10.
Qed.

Lemma read_returns_the_body_witness :
  ∃ r, PostOk yaml_response = PostOk r ∧ status_code r = codes_ok ∧
       r_body r = BodyOk sample_body ∧
       body_reads (st_trace (run_read Py3 cfg_uncapped (PostOk yaml_response)).2)
         = 1%nat ∧
       closes (st_trace (run_read Py3 cfg_uncapped (PostOk yaml_response)).2)
         = 1%nat.
Proof.
  exact (read_returns_the_body Py3 cfg_uncapped (PostOk yaml_response)
           sample_body eq_refl).
Defined.

(** ** The size guard, case by case *)

(** X9.  With a positive cap, a response with status 200 whose
    Content-Length is text never has its body read, whatever the text:
    Python 3 raises [TypeError] out of [read] with the response left
    open, Python 2 takes the response for too large, closes it and
    returns [None]. *)
Theorem read_textual_length pv (self : ConfigHTTP) (r : Response) (s : string) :
  status_code r = codes_ok →
  0 < max_buffer_size self →
  headers_get "Content-Length" (r_headers r) = Some (VStr s) →
  body_reads (st_trace (run_read pv self (PostOk r)).2) = 0%nat ∧
  match pv with
  | Py3 =>
      (∃ m, (run_read pv self (PostOk r)).1 = Raise (TypeError m)) ∧
      closes (st_trace (run_read pv self (PostOk r)).2) = 0%nat
  | Py2 =>
      (run_read pv self (PostOk r)).1 = Val None ∧
      closes (st_trace (run_read pv self (PostOk r)).2) = 1%nat
  end.
Proof.
  intros Hs Hc Hh. apply Z.eqb_eq in Hs. apply Z.ltb_lt in Hc.
  unfold closes. read_unfold. rewrite Hs, Hc. read_cbn. rewrite Hh.
  destruct pv; read_cbn; eauto.
Qed.

Lemma read_textual_length_witness :
  body_reads (st_trace (run_read Py2 cfg_plain (PostOk short_response)).2) = 0%nat ∧
  (run_read Py2 cfg_plain (PostOk short_response)).1 = Val None ∧
  closes (st_trace (run_read Py2 cfg_plain (PostOk short_response)).2) = 1%nat.
Proof.
  exact (read_textual_length Py2 cfg_plain short_response "5"
           eq_refl eq_refl eq_refl).
Defined.



(** X11.  With the cap off (zero or negative) [read] does not look at
    Content-Length at all: a response with status 200 whose body
    arrives is returned whole, whether the length is declared, and as
    what, or not. *)
Theorem read_uncapped pv (self : ConfigHTTP) (r : Response)
    (b : list Byte.byte) (ct : string) :
  max_buffer_size self ≤ 0 →
  status_code r = codes_ok →
  r_body r = BodyOk b →
  default (VStr "application/octet-stream")
          (headers_get "Content-Type" (r_headers r)) = VStr ct →
  (run_read pv self (PostOk r)).1 = Val (Some b) ∧
  body_reads (st_trace (run_read pv self (PostOk r)).2) = 1%nat ∧
  closes (st_trace (run_read pv self (PostOk r)).2) = 1%nat.
Proof.
  intros Hc Hs Hb Hct.
  destruct (read_size_guard_int pv self r b ct Hs Hb Hct (or_introl Hc))
    as (Hcl & Hg).
  case_bool_decide; [lia|]. by destruct Hg.
Qed.

Lemma read_uncapped_witness :
  (run_read Py3 cfg_uncapped (PostOk short_response)).1 = Val (Some sample_body) ∧
  body_reads (st_trace (run_read Py3 cfg_uncapped (PostOk short_response)).2)
    = 1%nat ∧
  closes (st_trace (run_read Py3 cfg_uncapped (PostOk short_response)).2) = 1%nat.
Proof.
  assert (max_buffer_size cfg_uncapped ≤ 0) as Hc by (vm_compute; discriminate).
  exact (read_uncapped Py3 cfg_uncapped short_response sample_body "text/plain"
           Hc eq_refl eq_refl eq_refl).
Defined.

(** X12.  With a positive cap and a Content-Length that is a number, the
    guard is strict: a declared length equal to the cap is accepted and
    the body returned, one byte more is refused before the body is
    read.  The length of the body itself is not looked at. *)
Theorem read_guard_boundary pv (self : ConfigHTTP) (r : Response)
    (b : list Byte.byte) (ct : string) (n : Z) :
  0 < max_buffer_size self →
  status_code r = codes_ok →
  r_body r = BodyOk b →
  default (VStr "application/octet-stream")
          (headers_get "Content-Type" (r_headers r)) = VStr ct →
  headers_get "Content-Length" (r_headers r) = Some (VInt n) →
  (n ≤ max_buffer_size self →
   (run_read pv self (PostOk r)).1 = Val (Some b)) ∧
  (max_buffer_size self < n →
   (run_read pv self (PostOk r)).1 = Val None ∧
   body_reads (st_trace (run_read pv self (PostOk r)).2) = 0%nat).
Proof.
  intros Hc Hs Hb Hct Hn.
  destruct (read_size_guard_int pv self r b ct Hs Hb Hct
              (or_intror (ex_intro _ n Hn))) as (Hcl & Hg).
  rewrite Hn in Hg. split; intros Hle; case_bool_decide; try lia; by destruct Hg.
Qed.

Lemma read_guard_boundary_witness :
  (run_read Py3 cfg_plain (PostOk exact_response)).1 = Val (Some sample_body).
Proof.
  assert (0 < max_buffer_size cfg_plain) as Hc by reflexivity.
  exact (proj1 (read_guard_boundary Py3 cfg_plain exact_response sample_body
                  "text/plain" 1024 Hc eq_refl eq_refl eq_refl eq_refl)
               (Z.le_refl 1024)).
Defined.

(** ** The query arguments and credentials of [url] *)

#[local] Instance String_plus_inj : Inj (=) (=) (String "+").
Proof. by intros k1 k2 [= ->]. Qed.

Lemma url_args_lookup `{URLBase} (self : ConfigHTTP) :
  url_args self !! "encoding" = Some (encoding self) ∧
  url_args self !! "format" = format_value <$> config_format self ∧
  (∀ k, url_args self !! ("+" +:+ k) = headers self !! k) ∧
  (∀ j, is_Some (url_args self !! j) →
        j = "encoding" ∨ j = "format" ∨
        ∃ k, j = "+" +:+ k ∧ is_Some (headers self !! k)).
Proof.
  unfold url_args.
  assert (∀ j, (∀ k, j ≠ String "+" k) →
               (kmap (String "+") (headers self) : gmap string string) !! j
               = None) as Hnone.
  { intros j Hj. apply lookup_kmap_None; [apply _|]. intros k ->. by destruct (Hj k). }
  repeat split.
  - rewrite lookup_union_r by (by apply Hnone).
    destruct (config_format self); [rewrite lookup_insert_ne by done|];
      apply lookup_singleton_eq.
  - rewrite lookup_union_r by (by apply Hnone).
    destruct (config_format self); simpl;
      [apply lookup_insert_eq|by apply lookup_singleton_ne].
  - intros k. cbn [String.append]. rewrite lookup_union, lookup_kmap by apply _.
    assert (∀ m : gmap string string,
              (∀ j v, m !! j = Some v → j = "encoding" ∨ j = "format") →
              m !! String "+" k = None) as Hm.
    { intros m Hk. destruct (m !! String "+" k) eqn:E; [|done].
      by destruct (Hk _ _ E). }
    rewrite Hm; [by destruct (headers self !! k)|].
    intros j v. destruct (config_format self).
    + intros [[<- _]|[_ [<- _]%lookup_singleton_Some]]%lookup_insert_Some; eauto.
    + intros [<- _]%lookup_singleton_Some. eauto.
  - intros j [v Hj]. apply lookup_union_Some_raw in Hj as [Hj|[_ Hj]].
    + assert (is_Some ((kmap (String "+") (headers self) : gmap string string) !! j))
        as Hs by eauto.
      apply lookup_kmap_is_Some in Hs as (k & -> & Hk); [|apply _]. eauto.
    + destruct (config_format self).
      * apply lookup_insert_Some in Hj as [[<- _]|[_ [<- _]%lookup_singleton_Some]]; eauto.
      * apply lookup_singleton_Some in Hj as [<- _]. eauto.
Qed.

(** X13.  The arguments [url] encodes hold [encoding] with the encoding
    of the object, [format] exactly when a format is enforced, every
    header under its name with [+] in front, and nothing else; since
    every header key starts with [+], no header can displace [encoding]
    or [format]. *)
Theorem url_args_keys `{URLBase} (self : ConfigHTTP) :
  url_args self !! "encoding" = Some (encoding self) ∧
  url_args self !! "format" = format_value <$> config_format self ∧
  (∀ k, url_args self !! ("+" +:+ k) = headers self !! k) ∧
  (∀ j, is_Some (url_args self !! j) →
        j = "encoding" ∨ j = "format" ∨
        ∃ k, j = "+" +:+ k ∧ is_Some (headers self !! k)).
Proof. apply url_args_lookup. Qed.

Lemma append_not_empty (s t : string) (c : ascii) : s +:+ String c t ≠ "".
Proof. by destruct s. Qed.

(** X14.  [url] prints credentials exactly when [read] sends some, that
    is when the user name is set and not empty: a password without a
    user is neither printed nor sent, and a user without a password is
    printed alone. *)
Theorem url_auth_iff_read_auth `{URLBase} (self : ConfigHTTP) :
  (url_auth self = "" ↔ read_auth self = None) ∧
  (read_auth self = None ↔ truthy_opt (user self) = false) ∧
  (∀ u, user self = Some u → u ≠ "" →
        read_auth self = Some (u, password self) ∧
        url_auth self
          = if truthy_opt (password self)
            then quote u +:+ ":" +:+ quote (default "" (password self)) +:+ "@"
            else quote u +:+ "@").
Proof.
  unfold url_auth, read_auth. split; [|split].
  - destruct (truthy_opt (user self)); simpl; [|done].
    destruct (truthy_opt (password self)); (split; [|done]);
      intros He; by apply append_not_empty in He.
  - by destruct (truthy_opt (user self)).
  - intros u Hu Hne. rewrite Hu. simpl. apply String.eqb_neq in Hne.
    rewrite Hne. simpl. split; [done|]. by destruct (truthy_opt (password self)).
Qed.

(** X15.  [url] gives one string for an object with the default port of
    its scheme and for the same object without a port. *)
Theorem url_default_port_same `{URLBase} (self : ConfigHTTP) :
  url (with_port (Some (default_port self)) self) = url (with_port None self).
Proof.
  unfold url, url_port. cbn. unfold default_port. cbn.
  by destruct (secure self).
Qed.

(** ** Objects made by the constructor *)

(** X16.  For an object made by [__init__]: the scheme [read] addresses
    is the one [url] prints; the path is the [fullpath] argument when
    that is a string and [/] when it is missing or anything else; and
    the headers given are the ones [read] sends over its User-Agent and
    the ones [url] prints with [+] in front ([None] and the empty
    dictionary both give no header). *)
Theorem init_object `{URLBase} (b : ConfigBase) (hdrs : option (gmap string string))
    (kw_fullpath : option pyval) :
  schema (init b hdrs kw_fullpath)
    = (if secure (init b hdrs kw_fullpath) then secure_protocol else protocol) ∧
  fullpath (init b hdrs kw_fullpath)
    = match kw_fullpath with Some (VStr s) => s | _ => "/" end ∧
  headers (init b hdrs kw_fullpath) = default ∅ hdrs ∧
  (∀ k, rq_headers (read_request (init b hdrs kw_fullpath)) !! k
        = overlay {[ "User-Agent" := app_id b ]} (default ∅ hdrs) k) ∧
  (∀ k, url_args (init b hdrs kw_fullpath) !! ("+" +:+ k) = default ∅ hdrs !! k).
Proof.
  assert (headers (init b hdrs kw_fullpath) = default ∅ hdrs) as Hh.
  { destruct hdrs as [h|]; simpl; [|done]. case_decide; [done|].
    apply (right_id ∅ (∪)). }
  split; [by destruct (secure b) eqn:E; cbn; rewrite E|].
  split; [done|]. split; [done|]. split; intros k.
  - cbn [read_request rq_headers]. rewrite read_headers_lookup. by rewrite Hh.
  - destruct (url_args_lookup (init b hdrs kw_fullpath)) as (_ & _ & Hk & _).
    by rewrite Hk, Hh.
Qed.

(** ** [parse_url] at the edges *)

(** X17.  [parse_url] hands on what the base parser could not load:
    [None] stays [None] and an empty dictionary is returned untouched,
    without a ['headers'] entry.  A non-empty result that lacks the
    ['qsd-'] or the ['qsd+'] bucket makes it raise [KeyError]. *)
Theorem parse_url_edges (base_parse_url : string → option parsed) (url : string) :
  (base_parse_url url = None → parse_url base_parse_url url = inr None) ∧
  (∀ p, base_parse_url url = Some p → results p = ∅ →
        parse_url base_parse_url url = inr (Some p) ∧ headers_of p = None) ∧
  (∀ p, base_parse_url url = Some p → results p ≠ ∅ →
        results p !! "qsd-" = None →
        parse_url base_parse_url url = inl (PKeyError "qsd-")) ∧
  (∀ p l, base_parse_url url = Some p →
          results p !! "qsd-" = Some (RDict l) →
          results p !! "qsd+" = None →
          parse_url base_parse_url url = inl (PKeyError "qsd+")).
Proof.
  unfold parse_url. split; [by intros ->|]. split; [|split].
  - intros p Hp He. rewrite Hp. split; [by case_decide|].
    unfold headers_of. by rewrite He, lookup_empty.
  - intros p Hp Hne Hm. rewrite Hp. case_decide; [done|]. by rewrite Hm.
  - intros p l Hp Hm Hq. rewrite Hp. case_decide as He.
    { rewrite He in Hm. by rewrite lookup_empty in Hm. }
    rewrite Hm, lookup_insert_ne by done. by rewrite Hq.
Qed.

(** X18.  On success [parse_url] adds one key and writes one dictionary:
    ['headers'] refers to the very dictionary of ['qsd-'], which now
    holds the overlay, so the minus bucket read afterwards shows the
    overrides too; every other key of the result and every other
    dictionary, with it the plus bucket when it is another object, is
    as the base parser left it. *)
Theorem parse_url_writes_minus_bucket (base_parse_url : string → option parsed)
    (url : string) (p : parsed) (lm lp : loc) (minus plus : gmap string string) :
  base_parse_url url = Some p →
  results p !! "qsd-" = Some (RDict lm) →
  results p !! "qsd+" = Some (RDict lp) →
  store p !! lm = Some minus →
  store p !! lp = Some plus →
  ∃ p', parse_url base_parse_url url = inr (Some p') ∧
        results p' !! "headers" = Some (RDict lm) ∧
        results p' !! "qsd-" = Some (RDict lm) ∧
        (∀ k, k ≠ "headers" → results p' !! k = results p !! k) ∧
        store p' !! lm = Some (plus ∪ minus) ∧
        (∀ l, l ≠ lm → store p' !! l = store p !! l).
Proof.
  intros Hp Hm Hq Hsm Hsp. unfold parse_url. rewrite Hp.
  case_decide as He.
  { rewrite He in Hm. by rewrite lookup_empty in Hm. }
  rewrite Hm, lookup_insert_ne by done. rewrite Hq.
  eexists. split; [reflexivity|]. cbn. unfold deref. rewrite Hsm, Hsp. cbn.
  repeat split.
  - apply lookup_insert_eq.
  - by rewrite lookup_insert_ne.
  - intros k Hk. by rewrite lookup_insert_ne.
  - apply lookup_insert_eq.
  - intros l Hl. by rewrite lookup_insert_ne.
Qed.

Lemma parse_url_writes_minus_bucket_witness :
  ∃ p', parse_url (λ _, Some sample_parsed) "http://localhost/?-X-A=1&+X-A=2&+X-B=3"
          = inr (Some p') ∧
        results p' !! "headers" = results p' !! "qsd-" ∧
        store p' !! 0%nat = Some {[ "X-A" := "2"; "X-B" := "3" ]} ∧
        store p' !! 1%nat = Some {[ "X-A" := "2"; "X-B" := "3" ]}.
Proof.
  destruct (parse_url_writes_minus_bucket (λ _, Some sample_parsed)
              "http://localhost/?-X-A=1&+X-A=2&+X-B=3" sample_parsed 0%nat 1%nat
              {[ "X-A" := "1" ]} {[ "X-A" := "2"; "X-B" := "3" ]}
              eq_refl eq_refl eq_refl eq_refl eq_refl)
    as (p' & Hp & Hh & Hm & _ & Hs & Ho).
  exists p'. split; [exact Hp|]. split; [exact (eq_trans Hh (eq_sym Hm))|].
  split; [exact Hs|]. exact (Ho 1%nat (λ E, O_S 0 (eq_sym E))).
Defined.

(** ** An error status *)

(** X19.  Behind any status other than 200 whose body arrives, [read]
    returns [None] with the object as it was, pulls the body once (all
    of it: the cut to 2048 bytes is made on what was read), closes the
    response once, and consults neither the buffer cap nor any header:
    not even a missing Content-Length makes it raise. *)
Theorem read_error_status pv (self : ConfigHTTP) (r : Response) (b : list Byte.byte) :
  status_code r ≠ codes_ok →
  r_body r = BodyOk b →
  run_read pv self (PostOk r)
  = (Val None,
     {| st_self := self;
        st_trace :=
          [EvLog Debug (LogPostURL (read_url self) (verify_certificate self));
           EvThrottle; EvPost (read_request self);
           EvLog Error (LogHTTPError (status_code r)); EvContent;
           EvLog Debug (LogResponseDetails (take 2048 b)); EvClose] |}).
Proof.
  intros Hs Hb. apply Z.eqb_neq in Hs.
  read_unfold. rewrite Hs. read_cbn. rewrite Hb. reflexivity.
Qed.

Lemma read_error_status_witness :
  (run_read Py3 cfg_plain (PostOk not_found)).1 = Val None ∧
  body_reads (st_trace (run_read Py3 cfg_plain (PostOk not_found)).2) = 1%nat ∧
  closes (st_trace (run_read Py3 cfg_plain (PostOk not_found)).2) = 1%nat.
Proof.
  assert (status_code not_found ≠ codes_ok) as Hs by (vm_compute; discriminate).
  rewrite (read_error_status Py3 cfg_plain not_found (replicate 3000 Byte.x2e)
             Hs eq_refl).
  repeat split; reflexivity.
Defined.
